(** * HS71: the Hock-Schittkowski problem 71 tutorial program

    A shallow embedding of [src/003-hs71/003-hs71.cc]: the three
    twice-differentiable functions [F], [G0] and [G1], the assembly of the
    optimisation problem in [main], and the [switch] over the solver's
    result.

    Modelling conventions.
    - [double] is modelled by the real numbers [R]: the properties studied
      here are statements of exact polynomial arithmetic.  A bound of an
      interval is a [double] that may be infinite, hence the type [bound].
    - An Eigen vector is a [list R]; a dense matrix is the list of its rows.
    - An Eigen assertion, a failed library check and an exception thrown by
      [boost::get] are results [Err _] of the error monad [exc]. *)

From Stdlib Require Import Reals Lra String ZArith.
From stdpp Require Import base list.

Open Scope R_scope.

(** ** Errors *)

Inductive error : Type :=
| DimensionMismatch
| IndexOutOfRange
| AssertionFailed
| BadGet.

Inductive exc (A : Type) : Type :=
| Ok (a : A)
| Err (e : error).

Arguments Ok {A} a.
Arguments Err {A} e.

#[global] Instance exc_ret : MRet exc := fun _ a => Ok a.

#[global] Instance exc_bind : MBind exc := fun _ _ k m =>
  match m with
  | Ok a => k a
  | Err e => Err e
  end.

#[global] Instance R_inhabited : Inhabited R := populate 0.

(** ** Eigen vectors and matrices *)

Module Eigen.

Definition vector_t : Type := list R.

(** A matrix is stored as the list of its rows. *)
Definition matrix_t : Type := list (list R).

Definition Zero (n : nat) : vector_t := replicate n 0.

Definition ZeroMatrix (r c : nat) : matrix_t := replicate r (replicate c 0).

Definition rows (h : matrix_t) : nat := length h.

Definition cols (h : matrix_t) : nat := length (h !!! 0%nat).

(** [v[i]] as an rvalue.  Eigen checks the index with an assertion; the
    evaluation wrappers of [Function] only call the [impl_] methods on
    an argument of the declared size, so the read is total here and its
    value out of range (0) is never observed through the wrappers. *)
Definition coeff (v : vector_t) (i : nat) : R := v !!! i.

(** [h(a, b)]. *)
Definition mcoeff (h : matrix_t) (a b : nat) : R := (h !!! a) !!! b.

(** [v[i] = c]: Eigen asserts that the index is in range. *)
Definition set_coeff (v : vector_t) (i : nat) (c : R) : exc vector_t :=
  if (i <? length v)%nat then Ok (<[i:=c]> v) else Err AssertionFailed.

(** [v << c0, c1, ...;] the comma initialiser fills the coefficients of
    [v] in order and asserts that exactly [v.size ()] of them are given. *)
Definition comma_vector (v : vector_t) (cs : list R) : exc vector_t :=
  if (length cs =? length v)%nat then Ok cs else Err AssertionFailed.

(** Cuts a sequence of coefficients into [r] rows of [c] entries. *)
Fixpoint row_major (r c : nat) (cs : list R) : matrix_t :=
  match r with
  | O => []
  | S r' => take c cs :: row_major r' c (drop c cs)
  end.

(** [h << c00, c01, ...;] the comma initialiser fills the matrix row by
    row and asserts that exactly [rows * cols] coefficients are given. *)
Definition comma_matrix (h : matrix_t) (cs : list R) : exc matrix_t :=
  if (length cs =? rows h * cols h)%nat
  then Ok (row_major (rows h) (cols h) cs)
  else Err AssertionFailed.

(** [s * v]. *)
Definition scale (s : R) (v : vector_t) : vector_t := Rmult s <$> v.

End Eigen.

Arguments Eigen.set_coeff v i%_nat c%_R.

Notation "x .[ i ]" := (Eigen.coeff x i%nat)
  (at level 1, left associativity, format "x .[ i ]").

(** ** The function interface of the optimisation library *)

Definition argument_t : Type := Eigen.vector_t.
Definition result_t : Type := Eigen.vector_t.
Definition gradient_t : Type := Eigen.vector_t.
Definition hessian_t : Type := Eigen.matrix_t.
Definition size_type : Type := nat.

(** The base class [TwiceDifferentiableFunction (inputSize, outputSize,
    name)] with its three virtual methods.  Each [impl_] method receives
    the output buffer that the caller allocated. *)
Record TwiceDifferentiableFunction : Type := {
  inputSize : size_type;
  outputSize : size_type;
  getName : string;
  impl_compute : result_t -> argument_t -> exc result_t;
  impl_gradient : gradient_t -> argument_t -> size_type -> exc gradient_t;
  impl_hessian : hessian_t -> argument_t -> size_type -> exc hessian_t
}.

(** Modelled from the spec: [compute (x)], the library entry point of the
    function contract, which is not part of this repository.  An argument
    whose length is not [inputSize] fails with a dimension mismatch;
    otherwise [impl_compute] is called on a zeroed vector of [outputSize]
    coefficients. *)
Definition compute (f : TwiceDifferentiableFunction) (x : argument_t)
  : exc result_t :=
  if (length x =? inputSize f)%nat
  then impl_compute f (Eigen.Zero (outputSize f)) x
  else Err DimensionMismatch.

(** Modelled from the spec: [gradient (x, i)], the library entry point
    that checks the length of [x] and the output index [i], then calls
    [impl_gradient] on a zeroed vector of [inputSize] coefficients. *)
Definition gradient (f : TwiceDifferentiableFunction) (x : argument_t)
  (i : size_type) : exc gradient_t :=
  if (length x =? inputSize f)%nat
  then if (i <? outputSize f)%nat
       then impl_gradient f (Eigen.Zero (inputSize f)) x i
       else Err IndexOutOfRange
  else Err DimensionMismatch.

(** Modelled from the spec: [hessian (x, i)], the library entry point
    that checks the length of [x] and the output index [i], then calls
    [impl_hessian] on a zeroed square matrix of size [inputSize]. *)
Definition hessian (f : TwiceDifferentiableFunction) (x : argument_t)
  (i : size_type) : exc hessian_t :=
  if (length x =? inputSize f)%nat
  then if (i <? outputSize f)%nat
       then impl_hessian f (Eigen.ZeroMatrix (inputSize f) (inputSize f)) x i
       else Err IndexOutOfRange
  else Err DimensionMismatch.

Arguments gradient f x i%_nat.
Arguments hessian f x i%_nat.

(** ** The three functions of the program *)

Definition F : TwiceDifferentiableFunction := {|
  inputSize := 4%nat;
  outputSize := 1%nat;
  getName := "x₀ * x₃ * (x₀ + x₁ + x₂) + x₂";
  impl_compute := fun result x =>
    Eigen.set_coeff result 0
      (x.[0] * x.[3] * (x.[0] + x.[1] + x.[2]) + x.[2]);
  impl_gradient := fun grad x _ =>
    Eigen.comma_vector grad
      [ x.[0] * x.[3] + x.[3] * (x.[0] + x.[1] + x.[2]);
        x.[0] * x.[3];
        x.[0] * x.[3] + 1;
        x.[0] * (x.[0] + x.[1] + x.[2]) ];
  impl_hessian := fun h x _ =>
    Eigen.comma_matrix h
      [ 2 * x.[3];                   x.[3]; x.[3]; 2 * x.[0] + x.[1] + x.[2];
        x.[3];                       0;     0;     x.[0];
        x.[3];                       0;     0;     x.[1];
        2 * x.[0] + x.[1] + x.[2];   x.[0]; x.[0]; 0 ]
|}.

Definition G0 : TwiceDifferentiableFunction := {|
  inputSize := 4%nat;
  outputSize := 1%nat;
  getName := "x₀ * x₁ * x₂ * x₃";
  impl_compute := fun result x =>
    Eigen.set_coeff result 0 (x.[0] * x.[1] * x.[2] * x.[3]);
  impl_gradient := fun grad x _ =>
    Eigen.comma_vector grad
      [ x.[1] * x.[2] * x.[3];
        x.[0] * x.[2] * x.[3];
        x.[0] * x.[1] * x.[3];
        x.[0] * x.[1] * x.[2] ];
  impl_hessian := fun h x _ =>
    Eigen.comma_matrix h
      [ 0;             x.[2] * x.[3]; x.[1] * x.[3]; x.[1] * x.[2];
        x.[2] * x.[3]; 0;             x.[0] * x.[3]; x.[0] * x.[2];
        x.[1] * x.[3]; x.[0] * x.[3]; 0;             x.[0] * x.[1];
        x.[1] * x.[2]; x.[0] * x.[2]; x.[0] * x.[1]; 0 ]
|}.

Definition G1 : TwiceDifferentiableFunction := {|
  inputSize := 4%nat;
  outputSize := 1%nat;
  getName := "x₀² + x₁² + x₂² + x₃²";
  impl_compute := fun result x =>
    Eigen.set_coeff result 0
      (x.[0] * x.[0] + x.[1] * x.[1] + x.[2] * x.[2] + x.[3] * x.[3]);
  impl_gradient := fun grad x _ => Ok (Eigen.scale 2 x);
  impl_hessian := fun h x _ =>
    Eigen.comma_matrix h
      [ 2; 0; 0; 0;
        0; 2; 0; 0;
        0; 0; 2; 0;
        0; 0; 0; 2 ]
|}.

(** ** Intervals *)

(** An end point of an interval: a [double], possibly infinite. *)
Inductive bound : Type :=
| NegInf
| Finite (v : R)
| PosInf.

Definition interval_t : Type := (bound * bound)%type.
Abbreviation intervals_t := (list interval_t).
Definition scales_t : Type := list R.

(** Modelled from the spec: [Function::makeInterval (l, u)], the library
    helper for the two-sided interval [l, u]. *)
Definition makeInterval (l u : R) : interval_t := (Finite l, Finite u).

(** Modelled from the spec: [Function::makeLowerInterval (l)], the library
    helper for the interval [l, +oo), unbounded above. *)
Definition makeLowerInterval (l : R) : interval_t := (Finite l, PosInf).

(** Modelled from the spec: [Function::makeUpperInterval (u)], the library
    helper for the interval (-oo, u], unbounded below. *)
Definition makeUpperInterval (u : R) : interval_t := (NegInf, Finite u).

(** Modelled from the spec: the interval (-oo, +oo) that bounds nothing,
    the content of the argument bounds of a fresh problem. *)
Definition makeInfiniteInterval : interval_t := (NegInf, PosInf).

Definition bound_le (a b : bound) : Prop :=
  match a, b with
  | NegInf, _ => True
  | _, PosInf => True
  | Finite u, Finite v => u <= v
  | _, _ => False
  end.

(** [v] lies in the interval [i]. *)
Definition contains (i : interval_t) (v : R) : Prop :=
  bound_le i.1 (Finite v) /\ bound_le (Finite v) i.2.

(** ** The problem container *)

Record Constraint : Type := {
  c_function : TwiceDifferentiableFunction;
  c_bounds : intervals_t;
  c_scales : scales_t
}.

Record Problem : Type := {
  function : TwiceDifferentiableFunction;
  startingPoint : option Eigen.vector_t;
  constraints : list Constraint;
  argumentBounds : intervals_t
}.

(** Modelled from the spec: the constructor of the problem class, which
    lives in the library.  The objective must have one output component;
    the fresh problem has no constraint, no starting point, and one
    (unbounded) interval per input variable. *)
Definition Problem_new (f : TwiceDifferentiableFunction) : exc Problem :=
  if (outputSize f =? 1)%nat
  then Ok {| function := f;
             startingPoint := None;
             constraints := [];
             argumentBounds := replicate (inputSize f) makeInfiniteInterval |}
  else Err DimensionMismatch.

(** Modelled from the spec: [setArgumentBounds (i, interval)], written
    [pb.argumentBounds ()[i] = interval] in the program; requires
    [0 <= i < inputSize] and overwrites the bound at position [i]. *)
Definition setArgumentBounds (pb : Problem) (i : nat) (iv : interval_t)
  : exc Problem :=
  if (i <? inputSize (function pb))%nat
  then Ok {| function := function pb;
             startingPoint := startingPoint pb;
             constraints := constraints pb;
             argumentBounds := <[i:=iv]> (argumentBounds pb) |}
  else Err IndexOutOfRange.

(** Modelled from the spec: [setStartingPoint (vector)], written
    [pb.startingPoint () = vector] in the program; requires a vector of
    length [inputSize]. *)
Definition setStartingPoint (pb : Problem) (v : Eigen.vector_t)
  : exc Problem :=
  if (length v =? inputSize (function pb))%nat
  then Ok {| function := function pb;
             startingPoint := Some v;
             constraints := constraints pb;
             argumentBounds := argumentBounds pb |}
  else Err DimensionMismatch.

(** Modelled from the spec: [addConstraint (function, bounds, scales)];
    requires the input size of the objective and as many bounds and scales
    as the function has outputs; appends the constraint (with copies of
    the two sequences) and returns its index. *)
Definition addConstraint (pb : Problem) (g : TwiceDifferentiableFunction)
  (b : intervals_t) (s : scales_t) : exc (Problem * nat) :=
  if (inputSize g =? inputSize (function pb))%nat
     && (length b =? outputSize g)%nat
     && (length s =? outputSize g)%nat
  then Ok ({| function := function pb;
              startingPoint := startingPoint pb;
              constraints := constraints pb ++
                [ {| c_function := g; c_bounds := b; c_scales := s |} ];
              argumentBounds := argumentBounds pb |},
           length (constraints pb))
  else Err DimensionMismatch.

(** ** Problem assembly in [main] (lines 113 to 150)

    The assembly is a transition system over program points named after
    the source lines.  The state holds the problem [pb] and the three local
    containers [start], [bounds] and [scales]; the constraint functions
    [g0] and [g1] allocated at lines 130 and 131 are the constants [G0]
    and [G1]. *)

Record locals : Type := {
  pb : Problem;
  start : Eigen.vector_t;
  bounds : intervals_t;
  scales : scales_t
}.

Inductive label : Type :=
| L121 (i : nat)   (* loop over the optimisation parameters *)
| L125             (* allocation of [start] *)
| L126 (k : nat)   (* the four assignments [start[k] = ...] *)
| L127
| L133 | L134
| L137 | L138 | L139
| L143 | L144
| L146 | L147 | L148
| L160.            (* the problem is handed to the solver factory *)

Definition with_pb (s : locals) (p : Problem) : locals :=
  {| pb := p; start := start s; bounds := bounds s; scales := scales s |}.

Definition with_start (s : locals) (v : Eigen.vector_t) : locals :=
  {| pb := pb s; start := v; bounds := bounds s; scales := scales s |}.

Definition with_bounds (s : locals) (b : intervals_t) : locals :=
  {| pb := pb s; start := start s; bounds := b; scales := scales s |}.

Definition with_scales (s : locals) (c : scales_t) : locals :=
  {| pb := pb s; start := start s; bounds := bounds s; scales := c |}.

Section Assembly.

(** The content of freshly allocated memory: [Function::vector_t start (n)]
    does not initialise its coefficients. *)
Variable uninitialised : nat -> R.

Definition fresh_vector (n : nat) : Eigen.vector_t :=
  uninitialised <$> seq 0 n.

(** Lines 114 and 117: [F f; solver_t::problem_t pb (f);]. *)
Definition main_init : exc locals :=
  p ← Problem_new F;
  Ok {| pb := p; start := []; bounds := []; scales := [] |}.

(** The values assigned at line 126. *)
Definition start_values : list R := [1; 5; 5; 1].

Definition step (l : label) (s : locals) : exc (label * locals) :=
  match l with
  | L121 i =>
      if (i <? inputSize (function (pb s)))%nat
      then p ← setArgumentBounds (pb s) i (makeInterval 1 5);
           Ok (L121 (i + 1), with_pb s p)
      else Ok (L125, s)
  | L125 =>
      Ok (L126 0, with_start s (fresh_vector (inputSize (function (pb s)))))
  | L126 k =>
      match start_values !! k with
      | Some c =>
          v ← Eigen.set_coeff (start s) k c;
          Ok (L126 (k + 1), with_start s v)
      | None => Ok (L127, s)
      end
  | L127 =>
      p ← setStartingPoint (pb s) (start s);
      Ok (L133, with_pb s p)
  | L133 => Ok (L134, with_bounds s [])
  | L134 => Ok (L137, with_scales s [])
  | L137 => Ok (L138, with_bounds s (bounds s ++ [makeLowerInterval 25]))
  | L138 => Ok (L139, with_scales s (scales s ++ [1]))
  | L139 =>
      '(p, _) ← addConstraint (pb s) G0 (bounds s) (scales s);
      Ok (L143, with_pb s p)
  | L143 => Ok (L144, with_bounds s [])
  | L144 => Ok (L146, with_scales s [])
  | L146 => Ok (L147, with_bounds s (bounds s ++ [makeInterval 40 40]))
  | L147 => Ok (L148, with_scales s (scales s ++ [1]))
  | L148 =>
      '(p, _) ← addConstraint (pb s) G1 (bounds s) (scales s);
      Ok (L160, with_pb s p)
  | L160 => Ok (L160, s)
  end.

(** [n] steps from a given program point. *)
Fixpoint run (n : nat) (l : label) (s : locals) : exc (label * locals) :=
  match n with
  | O => Ok (l, s)
  | S n' => '(l', s') ← step l s; run n' l' s'
  end.

(** The state after [n] steps of [main], counted from the construction
    of the problem. *)
Definition main_after (n : nat) : exc (label * locals) :=
  s ← main_init; run n (L121 0) s.

(** The problem that [main] hands to the solver factory at line 160. *)
Definition main_problem : exc Problem :=
  '(l, s) ← main_after 22;
  match l with
  | L160 => Ok (pb s)
  | _ => Err AssertionFailed
  end.

End Assembly.

(** ** Solver results and the final [switch] of [main] *)

Module Solver.

(** Modelled from the spec: the payload of the variant Solved, a point
    and the value of the objective there. *)
Record Result : Type := {
  x : Eigen.vector_t;
  value : Eigen.vector_t
}.

(** Modelled from the spec: the payload of the variant SolvedWithWarnings,
    a solution and the caveats that qualify it. *)
Record ResultWithWarnings : Type := {
  solution : Result;
  warnings : list string
}.

(** Modelled from the spec: the payload of the variant Error, a message. *)
Record SolverError : Type := { what : string }.

(** Modelled from the spec: the variant NoSolution, which carries
    nothing. *)
Inductive NoSolution : Type := no_solution.

(** Modelled from the spec: the result of a solver, a tagged union over
    the four outcomes; in the library it is
    [boost::variant<NoSolution, Result, ResultWithWarnings, SolverError>]. *)
Inductive result_t : Type :=
| holds_NoSolution (n : NoSolution)
| holds_Result (r : Result)
| holds_ResultWithWarnings (r : ResultWithWarnings)
| holds_SolverError (e : SolverError).

(** Modelled from the spec: the four tags, pairwise distinct; they number
    the types of the variant in the order of its declaration. *)
Definition SOLVER_NO_SOLUTION : Z := 0.
Definition SOLVER_VALUE : Z := 1.
Definition SOLVER_VALUE_WARNINGS : Z := 2.
Definition SOLVER_ERROR : Z := 3.

(** [res.which ()]: the index of the type that the variant holds. *)
Definition which (res : result_t) : Z :=
  match res with
  | holds_NoSolution _ => 0
  | holds_Result _ => 1
  | holds_ResultWithWarnings _ => 2
  | holds_SolverError _ => 3
  end.

(** [boost::get<T> (res)] on a reference: the content when the variant
    holds a [T], the exception [boost::bad_get] otherwise. *)
Definition get_Result (res : result_t) : exc Result :=
  match res with
  | holds_Result r => Ok r
  | _ => Err BadGet
  end.

Definition get_ResultWithWarnings (res : result_t)
  : exc ResultWithWarnings :=
  match res with
  | holds_ResultWithWarnings r => Ok r
  | _ => Err BadGet
  end.

Definition get_SolverError (res : result_t)
  : exc SolverError :=
  match res with
  | holds_SolverError e => Ok e
  | _ => Err BadGet
  end.

End Solver.

(** What the program writes to [std::cout]. *)
Inductive printed : Type :=
| Text (s : string)
| Endl
| PrintSolver
| PrintResult (r : Solver.Result)
| PrintResultWithWarnings (r : Solver.ResultWithWarnings).

(** How control leaves a statement of [main].  The text already written
    when an exception escapes depends on the evaluation order of the
    operands of [<<] and is not recorded. *)
Inductive control : Type :=
| Returns (code : Z) (out : list printed)
| Throws (e : error)
| FallsThrough.

(** Lines 172 to 208. *)
Definition main_switch (res : Solver.result_t) : control :=
  let w := Solver.which res in
  if (w =? Solver.SOLVER_VALUE)%Z then
    match Solver.get_Result res with
    | Ok result =>
        Returns 0 [Text "A solution has been found: "; Endl;
                   PrintResult result; Endl]
    | Err e => Throws e
    end
  else if (w =? Solver.SOLVER_VALUE_WARNINGS)%Z then
    match Solver.get_ResultWithWarnings res with
    | Ok result =>
        Returns 0 [Text "A solution has been found: "; Endl;
                   PrintResultWithWarnings result; Endl]
    | Err e => Throws e
    end
  else if (w =? Solver.SOLVER_NO_SOLUTION)%Z || (w =? Solver.SOLVER_ERROR)%Z
  then
    match Solver.get_SolverError res with
    | Ok e =>
        Returns 2 [Text "A solution should have been found. Failing...";
                   Endl; Text (Solver.what e); Endl]
    | Err e => Throws e
    end
  else FallsThrough.

(** What [main] does with the result of the solver: line 167, the switch,
    and lines 210 to 212 when no [case] is taken ([assert (0)], and
    [return 42] when assertions are compiled out). *)
Definition main_report (ndebug : bool) (res : Solver.result_t) : control :=
  match main_switch res with
  | Returns code out => Returns code ([PrintSolver; Endl] ++ out)
  | Throws e => Throws e
  | FallsThrough =>
      if ndebug then Returns 42 [PrintSolver; Endl] else Throws AssertionFailed
  end.

Section Main.

Variable uninitialised : nat -> R.

(** The solver plugin: the factory of line 160 applied to a backend name
    and the problem, followed by [minimum ()]. *)
Variable minimum : string -> Problem -> exc Solver.result_t.

Variable ndebug : bool.

Definition main : control :=
  match main_problem uninitialised with
  | Err e => Throws e
  | Ok p =>
      match minimum "ipopt" p with
      | Err e => Throws e
      | Ok r => main_report ndebug r
      end
  end.

End Main.

(** * Properties *)

(** ** Exact derivatives

    The partial derivative of a function of a vector along the coordinate
    [a] is the derivative, in the sense of the real analysis library, of
    the function of one variable obtained by letting the coordinate [a]
    vary. *)

Definition partial (f : Eigen.vector_t -> R) (a : nat) (x : Eigen.vector_t)
  (l : R) : Prop :=
  derivable_pt_lim (fun t => f (<[a:=t]> x)) (x.[a]) l.

(** [l] is the second partial derivative of [f] at [x], first along [a] and
    then along [b]: the derivative along [b] of a function that is the
    derivative of [f] along [a] at every point of the dimension of [x]. *)
Definition partial2 (f : Eigen.vector_t -> R) (a b : nat)
  (x : Eigen.vector_t) (l : R) : Prop :=
  exists g : Eigen.vector_t -> R,
    (forall y, length y = length x -> partial f a y (g y)) /\
    partial g b x l.

(** The scalar value of a function of one output, and the entries of its
    gradient and Hessian for the output 0, as the evaluation entry points
    return them. *)
Definition value_at (f : TwiceDifferentiableFunction) (x : argument_t) : R :=
  match compute f x with
  | Ok r => r.[0]
  | Err _ => 0
  end.

Definition gradient_at (f : TwiceDifferentiableFunction) (x : argument_t)
  (a : nat) : R :=
  match gradient f x 0 with
  | Ok g => g.[a]
  | Err _ => 0
  end.

Definition hessian_at (f : TwiceDifferentiableFunction) (x : argument_t)
  (a b : nat) : R :=
  match hessian f x 0 with
  | Ok h => Eigen.mcoeff h a b
  | Err _ => 0
  end.

(** Polynomials in the variable of differentiation, to compute the
    derivative of the functions of the program by reflection. *)
Inductive poly : Type :=
| PX
| PC (c : R)
| PAdd (p q : poly)
| PMul (p q : poly).

Fixpoint peval (p : poly) (t : R) : R :=
  match p with
  | PX => t
  | PC c => c
  | PAdd p q => peval p t + peval q t
  | PMul p q => peval p t * peval q t
  end.

Fixpoint pdiff (p : poly) (t : R) : R :=
  match p with
  | PX => 1
  | PC _ => 0
  | PAdd p q => pdiff p t + pdiff q t
  | PMul p q => pdiff p t * peval q t + peval p t * pdiff q t
  end.

(** [h] is a symmetric [n] by [n] matrix. *)
Definition symmetric (n : nat) (h : hessian_t) : Prop :=
  forall a b, (a < n)%nat -> (b < n)%nat ->
    Eigen.mcoeff h a b = Eigen.mcoeff h b a.

(** The invariant of the problem container: the objective has one output
    and every constraint function has the input size of the objective. *)
Definition Problem_inv (p : Problem) : Prop :=
  outputSize (function p) = 1%nat /\
  Forall (fun c => inputSize (c_function c) = inputSize (function p))
    (constraints p).

(** What the assembly keeps true of the problem: its objective is [F] and
    its constraint functions are among [G0] and [G1]. *)
Definition built_from_F_G0_G1 (p : Problem) : Prop :=
  function p = F /\
  Forall (fun c => c_function c = G0 \/ c_function c = G1) (constraints p).

(** The problem that the program is meant to assemble, and the state of
    the assembly when it reaches the dispatch. *)
Definition hs71 : Problem := {|
  function := F;
  startingPoint := Some [1; 5; 5; 1];
  constraints :=
    [ {| c_function := G0;
         c_bounds := [(Finite 25, PosInf)];
         c_scales := [1] |};
      {| c_function := G1;
         c_bounds := [(Finite 40, Finite 40)];
         c_scales := [1] |} ];
  argumentBounds := replicate 4 (Finite 1, Finite 5)
|}.

Definition at_dispatch : locals := {|
  pb := hs71;
  start := [1; 5; 5; 1];
  bounds := [(Finite 40, Finite 40)];
  scales := [1]
|}.

(** ** Further notions used by the properties of the program *)

(** [h] has [n] rows of [n] coefficients. *)
Definition square (n : nat) (h : hessian_t) : Prop :=
  length h = n /\ Forall (fun row => length row = n) h.

(** The sizes kept by the container: one argument bound per input of the
    objective, a starting point (when set) of that length, and for every
    constraint a function of the same input size with one bound and one
    scale per output. *)
Definition Problem_wf (p : Problem) : Prop :=
  length (argumentBounds p) = inputSize (function p) /\
  (forall v, startingPoint p = Some v -> length v = inputSize (function p)) /\
  Forall (fun c =>
            inputSize (c_function c) = inputSize (function p) /\
            length (c_bounds c) = outputSize (c_function c) /\
            length (c_scales c) = outputSize (c_function c))
    (constraints p).

(** [x] respects the argument bounds of the problem, coordinate by
    coordinate. *)
Definition in_bounds (p : Problem) (x : Eigen.vector_t) : Prop :=
  Forall2 contains (argumentBounds p) x.

(** [x] satisfies the constraint [c]: every component of the value of its
    function lies in the bound of that component. *)
Definition satisfies (c : Constraint) (x : Eigen.vector_t) : Prop :=
  exists r, compute (c_function c) x = Ok r /\ Forall2 contains (c_bounds c) r.

(** [x] is a feasible point of the problem. *)
Definition feasible (p : Problem) (x : Eigen.vector_t) : Prop :=
  in_bounds p x /\ Forall (fun c => satisfies c x) (constraints p).

(** ** Calculus *)

Lemma pdiff_correct (p : poly) (t : R) :
  derivable_pt_lim (peval p) t (pdiff p t).
Proof.
  induction p as [| c | p IHp q IHq | p IHp q IHq]; simpl.
  - apply derivable_pt_lim_id.
  - apply derivable_pt_lim_const.
  - apply (derivable_pt_lim_plus _ _ _ _ _ IHp IHq).
  - apply (derivable_pt_lim_mult _ _ _ _ _ IHp IHq).
Qed.

Lemma derivable_pt_lim_ext (f g : R -> R) (t l : R) :
  (forall u, f u = g u) -> derivable_pt_lim g t l -> derivable_pt_lim f t l.
Proof.
  intros Hfg Hg eps Heps. destruct (Hg eps Heps) as [delta Hd].
  exists delta. intros h Hh Hlt. rewrite !Hfg. now apply Hd.
Qed.

Lemma derivable_poly (p : poly) (f : R -> R) (t l : R) :
  (forall u, f u = peval p u) -> l = pdiff p t -> derivable_pt_lim f t l.
Proof.
  intros Hf ->. apply (derivable_pt_lim_ext _ _ _ _ Hf), pdiff_correct.
Qed.

Ltac reify_poly f :=
  let f := eval cbv beta in f in
  lazymatch f with
  | (fun t => t) => constr:(PX)
  | (fun _ => ?c) => constr:(PC c)
  | (fun t => @?a t + @?b t) =>
      let p := reify_poly a in
      let q := reify_poly b in
      constr:(PAdd p q)
  | (fun t => @?a t * @?b t) =>
      let p := reify_poly a in
      let q := reify_poly b in
      constr:(PMul p q)
  end.

(** Proves [derivable_pt_lim f t l] for a polynomial [f]. *)
Ltac derive_poly :=
  lazymatch goal with
  | |- derivable_pt_lim ?f ?t ?l =>
      let p := reify_poly f in
      apply (derivable_poly p); [ intro; reflexivity | simpl; ring ]
  end.

Lemma partial_unique f a x l1 l2 :
  partial f a x l1 -> partial f a x l2 -> l1 = l2.
Proof. apply uniqueness_limite. Qed.

Lemma partial2_unique f a b x l1 l2 :
  partial2 f a b x l1 -> partial2 f a b x l2 -> l1 = l2.
Proof.
  intros (g1 & Hg1 & H1) (g2 & Hg2 & H2).
  unfold partial in H1, H2.
  apply (uniqueness_limite _ _ _ _ H1).
  apply (derivable_pt_lim_ext _ (fun t => g2 (<[b:=t]> x))); [ | exact H2 ].
  intros u.
  apply (partial_unique f a (<[b:=u]> x)).
  - apply Hg1, length_insert.
  - apply Hg2, length_insert.
Qed.

Lemma length4_inv (x : list R) :
  length x = 4%nat -> exists x0 x1 x2 x3, x = [x0; x1; x2; x3].
Proof.
  destruct x as [| x0 [| x1 [| x2 [| x3 [| x4 x]]]]]; try discriminate.
  intros _. now exists x0, x1, x2, x3.
Qed.

Ltac vector4 x H :=
  let x0 := fresh "x0" in
  let x1 := fresh "x1" in
  let x2 := fresh "x2" in
  let x3 := fresh "x3" in
  destruct (length4_inv x H) as (x0 & x1 & x2 & x3 & ->).

Ltac index4 a H :=
  destruct a as [| [| [| [| a]]]]; [ | | | | exfalso; lia ].

(** The gradient of each function is the vector of the partial derivatives
    of its value. *)
Lemma F_gradient_partial (x : argument_t) (a : nat) :
  length x = 4%nat -> (a < 4)%nat ->
  partial (value_at F) a x (gradient_at F x a).
Proof.
  intros Hx Ha. vector4 x Hx.
  index4 a Ha; unfold partial; cbn; derive_poly.
Qed.

Lemma G0_gradient_partial (x : argument_t) (a : nat) :
  length x = 4%nat -> (a < 4)%nat ->
  partial (value_at G0) a x (gradient_at G0 x a).
Proof.
  intros Hx Ha. vector4 x Hx.
  index4 a Ha; unfold partial; cbn; derive_poly.
Qed.

Lemma G1_gradient_partial (x : argument_t) (a : nat) :
  length x = 4%nat -> (a < 4)%nat ->
  partial (value_at G1) a x (gradient_at G1 x a).
Proof.
  intros Hx Ha. vector4 x Hx.
  index4 a Ha; unfold partial; cbn; derive_poly.
Qed.

Lemma G0_hessian_symmetric (x : argument_t) :
  length x = 4%nat ->
  exists h, hessian G0 x 0 = Ok h /\ symmetric 4 h.
Proof.
  intros Hx. vector4 x Hx. eexists. split; [ reflexivity | ].
  intros a b Ha Hb. index4 a Ha; index4 b Hb; cbn; ring.
Qed.

Lemma G1_hessian_symmetric (x : argument_t) :
  length x = 4%nat ->
  exists h, hessian G1 x 0 = Ok h /\ symmetric 4 h.
Proof.
  intros Hx. vector4 x Hx. eexists. split; [ reflexivity | ].
  intros a b Ha Hb. index4 a Ha; index4 b Hb; reflexivity.
Qed.

(** The Hessian of [F] is symmetric exactly when [x0 = x1]: the entries
    (2, 3) and (3, 2) are [x1] and [x0]. *)
Lemma F_hessian_symmetric_iff (x : argument_t) :
  length x = 4%nat ->
  exists h, hessian F x 0 = Ok h /\ (symmetric 4 h <-> x.[0] = x.[1]).
Proof.
  intros Hx. vector4 x Hx. eexists. split; [ reflexivity | ]. split.
  - intros Hs. symmetry. apply (Hs 2%nat 3%nat); lia.
  - cbn. intros E a b Ha Hb.
    index4 a Ha; index4 b Hb; cbn; try reflexivity; lra.
Qed.

(** C1, at the starting point of the program: the Hessian that [F] returns
    for the vector (1, 5, 5, 1) and the output 0 has 5 at row 2, column 3
    and 1 at row 3, column 2, so it is not symmetric. *)
Theorem F_hessian_not_symmetric :
  exists h, hessian F [1; 5; 5; 1] 0 = Ok h /\
    Eigen.mcoeff h 2 3 = 5 /\ Eigen.mcoeff h 3 2 = 1 /\ ~ symmetric 4 h.
Proof.
  eexists. split; [ reflexivity | ].
  split; [ reflexivity | ]. split; [ reflexivity | ].
  intros Hs. specialize (Hs 2%nat 3%nat). cbn in Hs.
  assert (5 = 1) by (apply Hs; lia). lra.
Qed.

(** Every entry of the Hessian of [F] other than (2, 3) is the second
    partial derivative of the value of [F]. *)
Lemma F_hessian_exact_elsewhere (x : argument_t) (a b : nat) :
  length x = 4%nat -> (a < 4)%nat -> (b < 4)%nat -> (a, b) <> (2, 3)%nat ->
  partial2 (value_at F) a b x (hessian_at F x a b).
Proof.
  intros Hx Ha Hb Hab.
  exists (fun y => gradient_at F y a). split.
  - intros y Hy. apply F_gradient_partial; congruence.
  - vector4 x Hx.
    index4 a Ha; index4 b Hb; try (now elim Hab);
      unfold partial; cbn; derive_poly.
Qed.

(** The second partial derivative of the value of [F] along the
    coordinates 2 and 3 is [x0]. *)
Lemma F_second_partial_2_3 (x : argument_t) :
  length x = 4%nat -> partial2 (value_at F) 2 3 x (x.[0]).
Proof.
  intros Hx.
  exists (fun y => gradient_at F y 2). split.
  - intros y Hy. apply F_gradient_partial; [ congruence | lia ].
  - vector4 x Hx. unfold partial; cbn; derive_poly.
Qed.

Lemma G0_hessian_exact (x : argument_t) (a b : nat) :
  length x = 4%nat -> (a < 4)%nat -> (b < 4)%nat ->
  partial2 (value_at G0) a b x (hessian_at G0 x a b).
Proof.
  intros Hx Ha Hb.
  exists (fun y => gradient_at G0 y a). split.
  - intros y Hy. apply G0_gradient_partial; congruence.
  - vector4 x Hx.
    index4 a Ha; index4 b Hb; unfold partial; cbn; derive_poly.
Qed.

Lemma G1_hessian_exact (x : argument_t) (a b : nat) :
  length x = 4%nat -> (a < 4)%nat -> (b < 4)%nat ->
  partial2 (value_at G1) a b x (hessian_at G1 x a b).
Proof.
  intros Hx Ha Hb.
  exists (fun y => gradient_at G1 y a). split.
  - intros y Hy. apply G1_gradient_partial; congruence.
  - vector4 x Hx.
    index4 a Ha; index4 b Hb; unfold partial; cbn; derive_poly.
Qed.

(** C2, at the starting point of the program: for the vector (1, 5, 5, 1)
    the second partial derivative of the value of [F] along the coordinates
    2 and 3 is 1, the entry (2, 3) of the Hessian that [F] returns is 5, and
    that entry is not the second partial derivative. *)
Theorem F_hessian_entry_2_3_not_exact :
  partial2 (value_at F) 2 3 [1; 5; 5; 1] 1 /\
  hessian_at F [1; 5; 5; 1] 2 3 = 5 /\
  ~ partial2 (value_at F) 2 3 [1; 5; 5; 1] (hessian_at F [1; 5; 5; 1] 2 3).
Proof.
  assert (H1 : partial2 (value_at F) 2 3 [1; 5; 5; 1] 1)
    by (apply (F_second_partial_2_3 [1; 5; 5; 1]); reflexivity).
  split; [ exact H1 | ]. split; [ reflexivity | ].
  intros H5. pose proof (partial2_unique _ _ _ _ _ _ H1 H5) as E.
  cbn in E. lra.
Qed.

(** C4: for every vector of length 4, the gradients that [F], [G0] and
    [G1] return are the stated vectors of polynomials, and each of their
    entries is the partial derivative of the value of the function along
    the corresponding coordinate. *)
Theorem gradient_exact (x : argument_t) (Hx : length x = 4%nat) :
  gradient F x 0 =
    Ok [ x.[0] * x.[3] + x.[3] * (x.[0] + x.[1] + x.[2]);
         x.[0] * x.[3];
         x.[0] * x.[3] + 1;
         x.[0] * (x.[0] + x.[1] + x.[2]) ] /\
  gradient G0 x 0 =
    Ok [ x.[1] * x.[2] * x.[3];
         x.[0] * x.[2] * x.[3];
         x.[0] * x.[1] * x.[3];
         x.[0] * x.[1] * x.[2] ] /\
  gradient G1 x 0 = Ok [ 2 * x.[0]; 2 * x.[1]; 2 * x.[2]; 2 * x.[3] ] /\
  forall a, (a < 4)%nat ->
    partial (value_at F) a x (gradient_at F x a) /\
    partial (value_at G0) a x (gradient_at G0 x a) /\
    partial (value_at G1) a x (gradient_at G1 x a).
Proof.
  repeat split.
  - vector4 x Hx. reflexivity.
  - vector4 x Hx. reflexivity.
  - vector4 x Hx. reflexivity.
  - now apply F_gradient_partial.
  - now apply G0_gradient_partial.
  - now apply G1_gradient_partial.
Qed.

Lemma gradient_exact_witness :
  length [1; 5; 5; 1] = 4%nat /\
  gradient G1 [1; 5; 5; 1] 0 = Ok [2 * 1; 2 * 5; 2 * 5; 2 * 1].
Proof.
  split; [ reflexivity | ].
  apply (gradient_exact [1; 5; 5; 1]). reflexivity.
Defined.

(** C5: for every vector of length 4, [F], [G0] and [G1] compute the
    stated polynomials, each as a vector of one component, which is the
    output size that the function declares. *)
Theorem compute_values (x : argument_t) (Hx : length x = 4%nat) :
  compute F x = Ok [ x.[0] * x.[3] * (x.[0] + x.[1] + x.[2]) + x.[2] ] /\
  compute G0 x = Ok [ x.[0] * x.[1] * x.[2] * x.[3] ] /\
  compute G1 x =
    Ok [ x.[0] * x.[0] + x.[1] * x.[1] + x.[2] * x.[2] + x.[3] * x.[3] ] /\
  outputSize F = 1%nat /\ outputSize G0 = 1%nat /\ outputSize G1 = 1%nat.
Proof.
  vector4 x Hx. repeat split.
Qed.

Lemma compute_values_witness :
  length [1; 5; 5; 1] = 4%nat /\
  compute F [1; 5; 5; 1] = Ok [ 1 * 1 * (1 + 5 + 5) + 5 ].
Proof.
  split; [ reflexivity | ].
  apply (compute_values [1; 5; 5; 1]). reflexivity.
Defined.

(** ** The assembled problem *)

Lemma built_Problem_inv (p : Problem) :
  built_from_F_G0_G1 p -> Problem_inv p.
Proof.
  intros [HF HC]. split; [ now rewrite HF | ].
  rewrite HF. eapply Forall_impl; [ exact HC | ].
  intros c [-> | ->]; reflexivity.
Qed.

Lemma addConstraint_built p g b s p' i :
  addConstraint p g b s = Ok (p', i) -> g = G0 \/ g = G1 ->
  built_from_F_G0_G1 p -> built_from_F_G0_G1 p'.
Proof.
  unfold addConstraint. intros H Hg [HF HC].
  destruct (_ && _); [ | discriminate ].
  injection H as <- _. split; [ exact HF | ]. cbn.
  apply Forall_app. split; [ exact HC | ]. now constructor.
Qed.

Lemma setArgumentBounds_built p i iv p' :
  setArgumentBounds p i iv = Ok p' ->
  built_from_F_G0_G1 p -> built_from_F_G0_G1 p'.
Proof.
  unfold setArgumentBounds. destruct (_ <? _)%nat; [ | discriminate ].
  intros H. injection H as <-. intros HI. exact HI.
Qed.

Lemma setStartingPoint_built p v p' :
  setStartingPoint p v = Ok p' ->
  built_from_F_G0_G1 p -> built_from_F_G0_G1 p'.
Proof.
  unfold setStartingPoint. destruct (_ =? _)%nat; [ | discriminate ].
  intros H. injection H as <-. intros HI. exact HI.
Qed.

(** Inverts a successful step: case analysis on the library calls and on
    the tests of the step, until the new state is known. *)
Ltac invert_step H :=
  repeat lazymatch type of H with
    | Ok _ = Ok _ => injection H as _ <-
    | Err _ = Ok _ => discriminate H
    | mbind _ ?m = Ok _ =>
        let E := fresh "E" in
        destruct m eqn:E; unfold mbind, exc_bind in H
    | (if ?c then _ else _) = Ok _ => destruct c
    | match ?o with Some _ => _ | None => _ end = Ok _ => destruct o
    | (let '(_, _) := ?r in _) = Ok _ => destruct r
    end.

Lemma step_built u l s l' s' :
  step u l s = Ok (l', s') ->
  built_from_F_G0_G1 (pb s) -> built_from_F_G0_G1 (pb s').
Proof.
  intros H HI.
  destruct l; unfold step in H; invert_step H; try exact HI; cbn.
  - eapply setArgumentBounds_built; eauto.
  - eapply setStartingPoint_built; eauto.
  - eapply addConstraint_built; eauto.
  - eapply addConstraint_built; eauto.
Qed.

Lemma run_built u n : forall l s l' s',
  run u n l s = Ok (l', s') ->
  built_from_F_G0_G1 (pb s) -> built_from_F_G0_G1 (pb s').
Proof.
  induction n as [| n IH]; intros l s l' s' H HI; cbn in H.
  - injection H as _ <-. exact HI.
  - destruct (step u l s) as [[l1 s1] | e] eqn:E; cbn in H; [ | discriminate ].
    eapply IH; [ exact H | ]. eapply step_built; eauto.
Qed.

Lemma run_L160 u n s : run u n L160 s = Ok (L160, s).
Proof. induction n as [| n IH]; [ reflexivity | exact IH ]. Qed.

Lemma run_add u n m : forall l s,
  run u (n + m) l s = '(l', s') ← run u n l s; run u m l' s'.
Proof.
  induction n as [| n IH]; intros l s; [ reflexivity | ].
  cbn. destruct (step u l s) as [[l1 s1] | e]; cbn; [ apply IH | reflexivity ].
Qed.

(** The assembly reaches the dispatch at line 160 after 22 steps. *)
Lemma main_after_22 u : main_after u 22 = Ok (L160, at_dispatch).
Proof. reflexivity. Qed.

Lemma main_problem_hs71 u : main_problem u = Ok hs71.
Proof. reflexivity. Qed.

Lemma run_prefix u n m l s st :
  run u (n + m) l s = Ok st -> exists st', run u n l s = Ok st'.
Proof.
  rewrite run_add. destruct (run u n l s) as [st' | e]; [ | discriminate ].
  intros _. now exists st'.
Qed.

(** The assembly never fails. *)
Lemma main_after_total u n : exists st, main_after u n = Ok st.
Proof.
  pose proof (main_after_22 u) as E. unfold main_after in *.
  destruct main_init as [s | e]; [ | discriminate E ].
  unfold mbind, exc_bind in *.
  destruct (Nat.le_gt_cases 22 n) as [Hn | Hn].
  - replace n with (22 + (n - 22))%nat by lia.
    rewrite run_add, E. eexists. apply run_L160.
  - apply (run_prefix u n (22 - n) _ _ (L160, at_dispatch)).
    replace (n + (22 - n))%nat with 22%nat by lia. exact E.
Qed.

(** C8: at every point of the assembly, from the construction of the
    problem to its dispatch, the objective of the problem is [F], its
    constraint functions are among [G0] and [G1], and the invariant of
    the container holds; [F], [G0] and [G1] declare the input size 4 and
    [F] declares the output size 1. *)
Theorem main_invariant (u : nat -> R) (n : nat) (l : label) (s : locals)
  (H : main_after u n = Ok (l, s)) :
  built_from_F_G0_G1 (pb s) /\ Problem_inv (pb s) /\
  inputSize F = 4%nat /\ inputSize G0 = 4%nat /\ inputSize G1 = 4%nat /\
  outputSize F = 1%nat.
Proof.
  assert (HI : built_from_F_G0_G1 (pb s)).
  { unfold main_after in H. cbn -[run] in H.
    eapply run_built; [ exact H | ]. split; [ reflexivity | constructor ]. }
  split; [ exact HI | ]. split; [ now apply built_Problem_inv | ].
  repeat split.
Qed.

Lemma main_invariant_witness :
  main_after (fun _ => 0) 22 = Ok (L160, at_dispatch) /\
  Problem_inv (pb at_dispatch).
Proof.
  split; [ reflexivity | ].
  apply (main_invariant (fun _ => 0) 22 L160 at_dispatch). reflexivity.
Defined.

(** C6: the problem handed to the solver factory has one argument bound
    per input variable, that is 4, each bound is the interval [1, 5], and
    its starting point is the vector (1, 5, 5, 1). *)
Theorem main_bounds_and_start (u : nat -> R) :
  exists p, main_problem u = Ok p /\
    inputSize (function p) = 4%nat /\
    length (argumentBounds p) = inputSize (function p) /\
    Forall (fun iv => iv = (Finite 1, Finite 5)) (argumentBounds p) /\
    startingPoint p = Some [1; 5; 5; 1] /\
    length [1; 5; 5; 1] = inputSize (function p).
Proof.
  exists hs71. split; [ reflexivity | ]. cbn.
  repeat split. repeat constructor.
Qed.

(** C7: the problem handed to the solver factory has two constraints, in
    the order of insertion: [G0] with the single bound [25, +oo) and the
    single scale 1, then [G1] with the single bound [40, 40] and the single
    scale 1; each has as many bounds and scales as its function has
    outputs, that is 1. *)
Theorem main_constraints (u : nat -> R) :
  exists p, main_problem u = Ok p /\
    constraints p =
      [ {| c_function := G0;
           c_bounds := [(Finite 25, PosInf)];
           c_scales := [1] |};
        {| c_function := G1;
           c_bounds := [(Finite 40, Finite 40)];
           c_scales := [1] |} ] /\
    Forall (fun c => length (c_bounds c) = outputSize (c_function c) /\
                     length (c_scales c) = outputSize (c_function c) /\
                     outputSize (c_function c) = 1%nat) (constraints p).
Proof.
  exists hs71. split; [ reflexivity | ]. cbn.
  split; [ reflexivity | ]. repeat constructor.
Qed.

(** C9: at the starting point of the assembled problem, the function of
    the second constraint, [G1], has the value 52, which lies in none of its
    bounds ([40, 40]), and the function of the first constraint, [G0], has
    the value 25, which is the lower end of its bound [25, +oo) and lies in
    it. *)
Theorem start_infeasible (u : nat -> R) :
  exists p x c0 c1, main_problem u = Ok p /\
    startingPoint p = Some x /\ constraints p = [c0; c1] /\
    compute (c_function c1) x = Ok [52] /\
    c_bounds c1 = [(Finite 40, Finite 40)] /\
    Forall (fun iv => ~ contains iv 52) (c_bounds c1) /\
    compute (c_function c0) x = Ok [25] /\
    c_bounds c0 = [(Finite 25, PosInf)] /\
    Forall (fun iv => contains iv 25) (c_bounds c0).
Proof.
  exists hs71. do 3 eexists. split; [ reflexivity | ]. cbn.
  split; [ reflexivity | ]. split; [ reflexivity | ].
  split; [ cbn; f_equal; f_equal; lra | ].
  split; [ reflexivity | ].
  split; [ constructor; [ | constructor ]; unfold contains; cbn; lra | ].
  split; [ cbn; f_equal; f_equal; lra | ].
  split; [ reflexivity | ].
  constructor; [ | constructor ]. unfold contains; cbn. split; [ lra | exact I ].
Qed.

(** The loop of line 121 on any problem, whatever the input size [i + k]
    of its objective: started at the index [i], it leaves the first [i]
    argument bounds as they are and sets the [k] others to [1, 5]. *)
Lemma bounds_loop u k : forall i s,
  (i + k)%nat = inputSize (function (pb s)) ->
  length (argumentBounds (pb s)) = inputSize (function (pb s)) ->
  exists p,
    run u (S k) (L121 i) s = Ok (L125, with_pb s p) /\
    function p = function (pb s) /\
    startingPoint p = startingPoint (pb s) /\
    constraints p = constraints (pb s) /\
    argumentBounds p =
      take i (argumentBounds (pb s)) ++ replicate k (makeInterval 1 5).
Proof.
  induction k as [| k IH]; intros i s Hn Hlen.
  - exists (pb s).
    change (run u 1 (L121 i) s)
      with ('(l', s') ← step u (L121 i) s; Ok (l', s')).
    unfold step.
    replace (i <? inputSize (function (pb s)))%nat with false
      by (symmetry; apply Nat.ltb_ge; lia).
    destruct s as [p st b sc]. cbn in *.
    repeat split. rewrite app_nil_r, take_ge; [ reflexivity | lia ].
  - change (run u (S (S k)) (L121 i) s)
      with ('(l', s') ← step u (L121 i) s; run u (S k) l' s').
    unfold step, setArgumentBounds.
    replace (i <? inputSize (function (pb s)))%nat with true
      by (symmetry; apply Nat.ltb_lt; lia).
    cbn [mbind exc_bind].
    destruct (IH (i + 1)%nat (with_pb s
      {| function := function (pb s);
         startingPoint := startingPoint (pb s);
         constraints := constraints (pb s);
         argumentBounds := <[i:=makeInterval 1 5]> (argumentBounds (pb s)) |}))
      as (p & Hrun & Hf & Hs & Hc & Hb).
    + cbn. lia.
    + change (length (<[i:=makeInterval 1 5]> (argumentBounds (pb s)))
              = inputSize (function (pb s))).
      rewrite length_insert. exact Hlen.
    + exists p. cbn in Hf, Hs, Hc, Hb. split; [ exact Hrun | ].
      repeat split; try assumption.
      rewrite Hb. replace (i + 1)%nat with (S i) by lia.
      assert (Hi : (i < length (argumentBounds (pb s)))%nat) by lia.
      rewrite (take_S_r _ _ (makeInterval 1 5))
        by (now apply list_lookup_insert_eq).
      rewrite take_insert_ge by lia.
      rewrite <- app_assoc. reflexivity.
Qed.

(** ** The final switch *)

Lemma which_tags (res : Solver.result_t) :
  Solver.which res = Solver.SOLVER_NO_SOLUTION \/
  Solver.which res = Solver.SOLVER_VALUE \/
  Solver.which res = Solver.SOLVER_VALUE_WARNINGS \/
  Solver.which res = Solver.SOLVER_ERROR.
Proof. destruct res; cbn; auto. Qed.

Lemma main_switch_Result (r : Solver.Result) :
  main_switch (Solver.holds_Result r) =
    Returns 0 [Text "A solution has been found: "; Endl; PrintResult r; Endl].
Proof. reflexivity. Qed.

Lemma main_switch_ResultWithWarnings (r : Solver.ResultWithWarnings) :
  main_switch (Solver.holds_ResultWithWarnings r) =
    Returns 0 [Text "A solution has been found: "; Endl;
               PrintResultWithWarnings r; Endl].
Proof. reflexivity. Qed.

Lemma main_switch_SolverError (e : Solver.SolverError) :
  main_switch (Solver.holds_SolverError e) =
    Returns 2 [Text "A solution should have been found. Failing...";
               Endl; Text (Solver.what e); Endl].
Proof. reflexivity. Qed.

(** Whatever the result, one [case] of the switch is taken: the code after
    the switch is never reached. *)
Lemma main_switch_never_falls_through (res : Solver.result_t) :
  main_switch res <> FallsThrough.
Proof. destruct res; discriminate. Qed.

(** C3, on the result [NoSolution]: the switch enters the case shared with
    [SOLVER_ERROR], where [boost::get<SolverError>] throws because the
    variant holds no [SolverError]; [main] ends by this exception when the
    solver returns [NoSolution], and does not return 2. *)
Theorem main_switch_NoSolution_throws :
  main_switch (Solver.holds_NoSolution Solver.no_solution) = Throws BadGet /\
  forall u ndebug,
    main u (fun _ _ => Ok (Solver.holds_NoSolution Solver.no_solution)) ndebug
    = Throws BadGet.
Proof. split; reflexivity. Qed.

(** C10, on the result [NoSolution]: the tail of [main] neither returns
    from inside the switch nor reaches the code after it; it ends by the
    exception of [boost::get]. *)
Theorem main_report_NoSolution_no_return (ndebug : bool) :
  main_report ndebug (Solver.holds_NoSolution Solver.no_solution)
    = Throws BadGet /\
  (forall code out,
     main_switch (Solver.holds_NoSolution Solver.no_solution)
       <> Returns code out) /\
  main_switch (Solver.holds_NoSolution Solver.no_solution) <> FallsThrough.
Proof. repeat split; discriminate. Qed.

(** * Further properties of the program *)

(** ** Hessians *)

Lemma hessian_at_mcoeff f x h a b :
  hessian f x 0 = Ok h -> hessian_at f x a b = Eigen.mcoeff h a b.
Proof. unfold hessian_at. now intros ->. Qed.

(** X1: for every vector of length 4, the Hessian that [G0] returns is
    symmetric and each of its sixteen entries is the second partial
    derivative of the value that [G0] computes. *)
Theorem G0_hessian_correct (x : argument_t) (Hx : length x = 4%nat) :
  exists h, hessian G0 x 0 = Ok h /\ symmetric 4 h /\
    forall a b, (a < 4)%nat -> (b < 4)%nat ->
      partial2 (value_at G0) a b x (Eigen.mcoeff h a b).
Proof.
  destruct (G0_hessian_symmetric x Hx) as (h & Hh & Hs).
  exists h. split; [ exact Hh | ]. split; [ exact Hs | ].
  intros a b Ha Hb. rewrite <- (hessian_at_mcoeff _ _ _ _ _ Hh).
  now apply G0_hessian_exact.
Qed.

Lemma G0_hessian_correct_witness :
  length [1; 5; 5; 1] = 4%nat /\
  exists h, hessian G0 [1; 5; 5; 1] 0 = Ok h /\ symmetric 4 h /\
    forall a b, (a < 4)%nat -> (b < 4)%nat ->
      partial2 (value_at G0) a b [1; 5; 5; 1] (Eigen.mcoeff h a b).
Proof.
  split; [ reflexivity | ].
  apply (G0_hessian_correct [1; 5; 5; 1]). reflexivity.
Defined.

(** X2: for every vector of length 4, the Hessian that [G1] returns is
    symmetric and each of its sixteen entries is the second partial
    derivative of the value that [G1] computes. *)
Theorem G1_hessian_correct (x : argument_t) (Hx : length x = 4%nat) :
  exists h, hessian G1 x 0 = Ok h /\ symmetric 4 h /\
    forall a b, (a < 4)%nat -> (b < 4)%nat ->
      partial2 (value_at G1) a b x (Eigen.mcoeff h a b).
Proof.
  destruct (G1_hessian_symmetric x Hx) as (h & Hh & Hs).
  exists h. split; [ exact Hh | ]. split; [ exact Hs | ].
  intros a b Ha Hb. rewrite <- (hessian_at_mcoeff _ _ _ _ _ Hh).
  now apply G1_hessian_exact.
Qed.

Lemma G1_hessian_correct_witness :
  length [1; 5; 5; 1] = 4%nat /\
  exists h, hessian G1 [1; 5; 5; 1] 0 = Ok h /\ symmetric 4 h /\
    forall a b, (a < 4)%nat -> (b < 4)%nat ->
      partial2 (value_at G1) a b [1; 5; 5; 1] (Eigen.mcoeff h a b).
Proof.
  split; [ reflexivity | ].
  apply (G1_hessian_correct [1; 5; 5; 1]). reflexivity.
Defined.

(** X3: for every vector of length 4, the Hessian that [F] returns has the
    second partial derivative of the value of [F] at every entry other
    than row 2, column 3; there it has [x1] where the derivative is [x0].
    So the matrix is the exact Hessian if and only if [x0 = x1], and it is
    symmetric if and only if [x0 = x1]. *)
Theorem F_hessian_characterised (x : argument_t) (Hx : length x = 4%nat) :
  exists h, hessian F x 0 = Ok h /\
    (forall a b, (a < 4)%nat -> (b < 4)%nat -> (a, b) <> (2, 3)%nat ->
       partial2 (value_at F) a b x (Eigen.mcoeff h a b)) /\
    Eigen.mcoeff h 2 3 = x.[1] /\
    partial2 (value_at F) 2 3 x (x.[0]) /\
    ((forall a b, (a < 4)%nat -> (b < 4)%nat ->
        partial2 (value_at F) a b x (Eigen.mcoeff h a b)) <-> x.[0] = x.[1]) /\
    (symmetric 4 h <-> x.[0] = x.[1]).
Proof.
  destruct (F_hessian_symmetric_iff x Hx) as (h & Hh & Hs).
  pose proof (F_second_partial_2_3 x Hx) as H23.
  assert (Hat : forall a b, hessian_at F x a b = Eigen.mcoeff h a b)
    by (intros; now apply hessian_at_mcoeff).
  assert (H1 : Eigen.mcoeff h 2 3 = x.[1]).
  { rewrite <- Hat. clear - Hx. vector4 x Hx. reflexivity. }
  assert (Hel : forall a b, (a < 4)%nat -> (b < 4)%nat -> (a, b) <> (2, 3)%nat ->
            partial2 (value_at F) a b x (Eigen.mcoeff h a b)).
  { intros a b Ha Hb Hab. rewrite <- Hat. now apply F_hessian_exact_elsewhere. }
  exists h. repeat split; try assumption.
  - intros Hall. symmetry. rewrite <- H1.
    apply (partial2_unique (value_at F) 2 3 x); [ apply Hall; lia | exact H23 ].
  - intros E a b Ha Hb.
    destruct (decide ((a, b) = (2, 3)%nat)) as [Hab | Hab].
    + injection Hab as -> ->. rewrite H1, <- E. exact H23.
    + now apply Hel.
  - apply Hs.
  - apply Hs.
Qed.

Lemma F_hessian_characterised_witness :
  length [1; 5; 5; 1] = 4%nat /\
  exists h, hessian F [1; 5; 5; 1] 0 = Ok h /\
    (symmetric 4 h <-> [1; 5; 5; 1].[0] = [1; 5; 5; 1].[1]).
Proof.
  split; [ reflexivity | ].
  destruct (F_hessian_characterised [1; 5; 5; 1] eq_refl)
    as (h & Hh & _ & _ & _ & _ & Hs).
  exists h. split; [ exact Hh | exact Hs ].
Defined.

(** ** Shapes of the results *)

Lemma square4_inv (h : hessian_t) :
  square 4 h -> Eigen.rows h = 4%nat /\ Eigen.cols h = 4%nat.
Proof.
  intros [Hr Hc]. split; [ exact Hr | ].
  destruct h as [| row h]; [ discriminate | ].
  apply Forall_cons in Hc as [Hrow _]. exact Hrow.
Qed.

(** X4: for each of [F], [G0] and [G1], every vector [x] of length 4,
    every output index and every output buffer of the declared shape,
    whatever the buffer holds: [impl_compute], [impl_gradient] and
    [impl_hessian] succeed, return a vector of 1 coefficient, a vector of
    4 coefficients and a 4 by 4 matrix, and these are the values of the
    evaluation entry points; no coefficient of the buffer survives. *)
Theorem impl_methods_fill_buffers (f : TwiceDifferentiableFunction)
  (Hf : f = F \/ f = G0 \/ f = G1) (x : argument_t) (Hx : length x = 4%nat)
  (r : result_t) (g : gradient_t) (h : hessian_t) (i : size_type)
  (Hr : length r = 1%nat) (Hg : length g = 4%nat) (Hh : square 4 h) :
  (exists r', impl_compute f r x = Ok r' /\ length r' = 1%nat /\
              compute f x = Ok r') /\
  (exists g', impl_gradient f g x i = Ok g' /\ length g' = 4%nat /\
              gradient f x 0 = Ok g') /\
  (exists h', impl_hessian f h x i = Ok h' /\ square 4 h' /\
              hessian f x 0 = Ok h').
Proof.
  destruct (square4_inv h Hh) as [Hrows Hcols].
  vector4 x Hx.
  destruct r as [| r0 [| r1 r]]; try discriminate.
  destruct Hf as [-> | [-> | ->]]; (split; [ | split ]).
  all: try (eexists; split; [ reflexivity | split; reflexivity ]).
  all: try (cbn; unfold Eigen.comma_vector; rewrite Hg;
            eexists; split; [ reflexivity | split; reflexivity ]).
  all: cbn; unfold Eigen.comma_matrix; rewrite Hrows, Hcols;
    eexists; (split; [ reflexivity | ]);
    (split; [ split; [ reflexivity | repeat constructor ] | reflexivity ]).
Qed.

Lemma impl_methods_fill_buffers_witness :
  exists g', impl_gradient G0 [7; 7; 7; 7] [1; 5; 5; 1] 3%nat = Ok g' /\
             length g' = 4%nat /\ gradient G0 [1; 5; 5; 1] 0 = Ok g'.
Proof.
  apply (impl_methods_fill_buffers G0 (or_intror (or_introl eq_refl))
           [1; 5; 5; 1] eq_refl [7] [7; 7; 7; 7]
           (Eigen.ZeroMatrix 4 4) 3%nat eq_refl eq_refl).
  split; [ reflexivity | repeat constructor ].
Defined.

(** ** Sizes kept by the assembly *)

Lemma Problem_new_wf f p : Problem_new f = Ok p -> Problem_wf p.
Proof.
  unfold Problem_new. destruct (_ =? _)%nat; [ | discriminate ].
  intros H. injection H as <-. split; [ apply length_replicate | ].
  split; [ discriminate | constructor ].
Qed.

Lemma setArgumentBounds_wf p i iv p' :
  setArgumentBounds p i iv = Ok p' -> Problem_wf p -> Problem_wf p'.
Proof.
  unfold setArgumentBounds. destruct (_ <? _)%nat; [ | discriminate ].
  intros H (Hb & Hs & Hc). injection H as <-. split; [ | split ]; cbn.
  - rewrite length_insert. exact Hb.
  - exact Hs.
  - exact Hc.
Qed.

Lemma setStartingPoint_wf p v p' :
  setStartingPoint p v = Ok p' -> Problem_wf p -> Problem_wf p'.
Proof.
  unfold setStartingPoint.
  destruct (length v =? inputSize (function p))%nat eqn:E; [ | discriminate ].
  intros H (Hb & Hs & Hc). injection H as <-. split; [ | split ]; cbn.
  - exact Hb.
  - intros w Hw. injection Hw as <-. now apply Nat.eqb_eq.
  - exact Hc.
Qed.

Lemma addConstraint_wf p g b s p' i :
  addConstraint p g b s = Ok (p', i) -> Problem_wf p ->
  Problem_wf p' /\ i = length (constraints p) /\
  constraints p' =
    constraints p ++ [ {| c_function := g; c_bounds := b; c_scales := s |} ].
Proof.
  unfold addConstraint.
  destruct (_ && _) eqn:E; [ | discriminate ].
  apply andb_prop in E as [E Es]. apply andb_prop in E as [Ei Eb].
  apply Nat.eqb_eq in Ei, Eb, Es.
  intros H (Hb & Hs & Hc). injection H as <- <-.
  split; [ | split; reflexivity ].
  split; [ exact Hb | ]. split; [ exact Hs | ]. cbn.
  apply Forall_app. split; [ exact Hc | ]. now repeat constructor.
Qed.

Lemma step_wf u l s l' s' :
  step u l s = Ok (l', s') -> Problem_wf (pb s) -> Problem_wf (pb s').
Proof.
  intros H HI.
  destruct l; unfold step in H; invert_step H; try exact HI; cbn.
  - eapply setArgumentBounds_wf; eauto.
  - eapply setStartingPoint_wf; eauto.
  - eapply addConstraint_wf; eauto.
  - eapply addConstraint_wf; eauto.
Qed.

Lemma run_wf u n : forall l s l' s',
  run u n l s = Ok (l', s') -> Problem_wf (pb s) -> Problem_wf (pb s').
Proof.
  induction n as [| n IH]; intros l s l' s' H HI; cbn in H.
  - injection H as _ <-. exact HI.
  - destruct (step u l s) as [[l1 s1] | e] eqn:E; cbn in H; [ | discriminate ].
    eapply IH; [ exact H | ]. eapply step_wf; eauto.
Qed.

(** X5: at every point of the assembly in [main], the problem has one
    argument bound per input of its objective, its starting point, once
    set, has that length, and each of its constraints has a function of
    the same input size with one bound and one scale per output. *)
Theorem main_keeps_sizes (u : nat -> R) (n : nat) (l : label) (s : locals)
  (H : main_after u n = Ok (l, s)) :
  Problem_wf (pb s).
Proof.
  unfold main_after, main_init in H.
  destruct (Problem_new F) as [p | e] eqn:E; [ | discriminate H ].
  unfold mbind, exc_bind in H.
  eapply run_wf; [ exact H | ]. cbn. eapply Problem_new_wf; eauto.
Qed.

Lemma main_keeps_sizes_witness : Problem_wf (pb at_dispatch).
Proof.
  apply (main_keeps_sizes (fun _ => 0) 22 L160 at_dispatch). reflexivity.
Defined.

(** X6: no statement of the assembly fails, whatever the memory of
    [start] holds before it is written: every coefficient that [main]
    writes is in range and every size check of the container passes.  The
    assembly is at line 160, with the problem assembled, after 22 steps and
    not before. *)
Theorem assembly_never_fails (u : nat -> R) (n : nat) :
  exists l s, main_after u n = Ok (l, s) /\
    ((22 <= n)%nat -> l = L160 /\ s = at_dispatch) /\
    ((n < 22)%nat -> l <> L160).
Proof.
  destruct (Nat.le_gt_cases 22 n) as [Hn | Hn].
  - exists L160, at_dispatch. split; [ | split; [ now intros _ | lia ] ].
    pose proof (main_after_22 u) as E. unfold main_after in *.
    destruct main_init as [s | e]; [ | discriminate E ].
    unfold mbind, exc_bind in *.
    replace n with (22 + (n - 22))%nat by lia.
    rewrite run_add, E. apply run_L160.
  - do 22 (destruct n as [| n];
           [ do 2 eexists; split; [ lazy; reflexivity | ];
             split; [ lia | intros _; discriminate ] | ]).
    lia.
Qed.

(** X7: the loop of line 121, run on any problem that has one argument
    bound per input of its objective, whatever the number [n] of inputs and
    whatever the bounds were: after [n + 1] steps it has left for line 125
    with every argument bound set to [1, 5], and nothing else changed. *)
Theorem bounds_loop_sets_all (u : nat -> R) (s : locals)
  (H : length (argumentBounds (pb s)) = inputSize (function (pb s))) :
  exists p,
    run u (S (inputSize (function (pb s)))) (L121 0) s
      = Ok (L125, with_pb s p) /\
    function p = function (pb s) /\
    startingPoint p = startingPoint (pb s) /\
    constraints p = constraints (pb s) /\
    argumentBounds p =
      replicate (inputSize (function (pb s))) (Finite 1, Finite 5).
Proof.
  destruct (bounds_loop u (inputSize (function (pb s))) 0%nat s eq_refl H)
    as (p & Hrun & Hf & Hs & Hc & Hb).
  exists p. repeat split; assumption.
Qed.

Lemma bounds_loop_sets_all_witness :
  exists p,
    run (fun _ => 0) 5 (L121 0)
      {| pb := {| function := F;
                  startingPoint := None;
                  constraints := [];
                  argumentBounds :=
                    [(NegInf, Finite 0); (Finite 7, PosInf);
                     (NegInf, PosInf); (Finite 2, Finite 3)] |};
         start := []; bounds := []; scales := [] |}
    = Ok (L125, p) /\
    argumentBounds (pb p) = replicate 4 (Finite 1, Finite 5).
Proof.
  destruct (bounds_loop_sets_all (fun _ => 0)
    {| pb := {| function := F;
                startingPoint := None;
                constraints := [];
                argumentBounds :=
                  [(NegInf, Finite 0); (Finite 7, PosInf);
                   (NegInf, PosInf); (Finite 2, Finite 3)] |};
       start := []; bounds := []; scales := [] |} eq_refl)
    as (p & Hrun & _ & _ & _ & Hb).
  eexists. split; [ exact Hrun | exact Hb ].
Defined.

(** ** The whole program *)

Lemma main_unfold u minimum ndebug :
  main u minimum ndebug =
    match minimum "ipopt"%string hs71 with
    | Err e => Throws e
    | Ok r => main_report ndebug r
    end.
Proof. unfold main. now rewrite main_problem_hs71. Qed.

(** Case analysis for the exits of [main]: splits the goal, opens the
    hypotheses, and closes each case by the tag of the result. *)
Ltac exit_cases :=
  repeat match goal with
    | |- _ /\ _ => split
    | |- _ <-> _ => split
    | |- forall _, _ => intro
    | H : exists _, _ |- _ => destruct H
    | H : _ /\ _ |- _ => destruct H
    | H : _ \/ _ |- _ => destruct H
    | H : Ok _ = Ok _ |- _ => injection H as <-
    | H : Returns _ _ = Returns _ _ |- _ => injection H as <- <-
    | H : _ = _ |- _ => discriminate H
    end;
  try first
    [ now auto
    | eexists; reflexivity
    | eexists; split; [ reflexivity | cbn; now auto ]
    | left; eexists; reflexivity
    | right; eexists; split; reflexivity ].

(** X8: the exit of [main], whatever the solver does and in both build
    modes.  [main] returns 0 exactly when the solver loaded under the name
    ipopt, run on the assembled problem, gives a result tagged
    [SOLVER_VALUE] or [SOLVER_VALUE_WARNINGS]; it returns 2 exactly when
    the result is tagged [SOLVER_ERROR]; it returns no other code; and it
    ends by an exception exactly when the factory or the solver fails or
    the result is tagged [SOLVER_NO_SOLUTION]. *)
Theorem main_exit_code (u : nat -> R)
  (minimum : string -> Problem -> exc Solver.result_t) (ndebug : bool) :
  ((exists out, main u minimum ndebug = Returns 0 out) <->
   (exists r, minimum "ipopt"%string hs71 = Ok r /\
      (Solver.which r = Solver.SOLVER_VALUE \/
       Solver.which r = Solver.SOLVER_VALUE_WARNINGS))) /\
  ((exists out, main u minimum ndebug = Returns 2 out) <->
   (exists r, minimum "ipopt"%string hs71 = Ok r /\
      Solver.which r = Solver.SOLVER_ERROR)) /\
  (forall code out, main u minimum ndebug = Returns code out ->
     code = 0%Z \/ code = 2%Z) /\
  ((exists e, main u minimum ndebug = Throws e) <->
   ((exists e, minimum "ipopt"%string hs71 = Err e) \/
    (exists r, minimum "ipopt"%string hs71 = Ok r /\
       Solver.which r = Solver.SOLVER_NO_SOLUTION))).
Proof.
  rewrite main_unfold.
  destruct (minimum "ipopt"%string hs71) as [[[] | r | r | e] | err]; cbn;
    exit_cases.
Qed.

(** X9: the code after the switch is dead in the whole program: for every
    result of the solver, what [main] does from line 167 on is the same
    with and without [NDEBUG], it is never the failure of [assert (0)],
    and it never returns 42. *)
Theorem code_after_switch_is_dead (res : Solver.result_t) (ndebug : bool) :
  main_report true res = main_report false res /\
  main_report ndebug res <> Throws AssertionFailed /\
  forall out, main_report ndebug res <> Returns 42 out.
Proof. destruct res; repeat split; discriminate. Qed.

(** ** The assembled problem as an optimisation problem *)

(** Checks a list of values against a list of intervals, one by one. *)
Ltac check_bounds :=
  repeat (constructor; [ unfold contains; cbn; lra | ]); constructor.

Lemma in_bounds_hs71 (x : Eigen.vector_t) :
  in_bounds hs71 x <->
  exists x0 x1 x2 x3, x = [x0; x1; x2; x3] /\
    1 <= x0 <= 5 /\ 1 <= x1 <= 5 /\ 1 <= x2 <= 5 /\ 1 <= x3 <= 5.
Proof.
  unfold in_bounds. cbn. split.
  - intros H.
    apply Forall2_cons_inv_l in H as (x0 & y0 & H0 & H & ->).
    apply Forall2_cons_inv_l in H as (x1 & y1 & H1 & H & ->).
    apply Forall2_cons_inv_l in H as (x2 & y2 & H2 & H & ->).
    apply Forall2_cons_inv_l in H as (x3 & y3 & H3 & H & ->).
    apply Forall2_nil_inv_l in H as ->.
    exists x0, x1, x2, x3. split; [ reflexivity | ].
    unfold contains in *. cbn in *. tauto.
  - intros (x0 & x1 & x2 & x3 & -> & H0 & H1 & H2 & H3). check_bounds.
Qed.

(** X10: the problem that [main] hands to the solver has feasible points:
    the vector (2, 2, 4, 4) respects the four argument bounds and satisfies
    both constraints.  The starting point respects the argument bounds
    but is not feasible. *)
Theorem assembled_problem_is_feasible (u : nat -> R) :
  exists p x0, main_problem u = Ok p /\ startingPoint p = Some x0 /\
    feasible p [2; 2; 4; 4] /\ in_bounds p x0 /\ ~ feasible p x0.
Proof.
  exists hs71, [1; 5; 5; 1]. split; [ reflexivity | ].
  split; [ reflexivity | ]. split; [ | split ].
  - split.
    + apply in_bounds_hs71. exists 2, 2, 4, 4.
      split; [ reflexivity | lra ].
    + constructor; [ | constructor; [ | constructor ] ].
      * exists [2 * 2 * 4 * 4]. split; [ reflexivity | check_bounds ].
      * exists [2 * 2 + 2 * 2 + 4 * 4 + 4 * 4].
        split; [ reflexivity | check_bounds ].
  - apply in_bounds_hs71. exists 1, 5, 5, 1. split; [ reflexivity | lra ].
  - intros [_ Hc]. cbn in Hc.
    apply Forall_cons in Hc as [_ Hc]. apply Forall_cons in Hc as [Hc _].
    destruct Hc as (r & Hr & Hb). cbn in Hr. injection Hr as <-.
    cbn in Hb. apply Forall2_cons in Hb as [[Hlo Hhi] _]. cbn in Hlo, Hhi. lra.
Qed.

(** X11: on every vector that respects the argument bounds set by [main],
    the objective [F] computes a value between 4 and 380, [G0] a value
    between 1 and 625 and [G1] a value between 4 and 100. *)
Theorem values_within_argument_bounds (u : nat -> R) (p : Problem)
  (x : Eigen.vector_t)
  (Hp : main_problem u = Ok p) (Hx : in_bounds p x) :
  exists f g0 g1,
    compute F x = Ok [f] /\ compute G0 x = Ok [g0] /\
    compute G1 x = Ok [g1] /\
    4 <= f <= 380 /\ 1 <= g0 <= 625 /\ 4 <= g1 <= 100.
Proof.
  rewrite main_problem_hs71 in Hp. injection Hp as <-.
  apply in_bounds_hs71 in Hx
    as (x0 & x1 & x2 & x3 & -> & H0 & H1 & H2 & H3).
  do 3 eexists. repeat (split; [ reflexivity | ]). cbn.
  assert (1 <= x0 * x3 <= 25) by nra.
  assert (1 <= x0 * x1 <= 25) by nra.
  assert (1 <= x2 * x3 <= 25) by nra.
  assert (3 <= x0 + x1 + x2 <= 15) by lra.
  repeat split; nra.
Qed.

Lemma values_within_argument_bounds_witness :
  exists f g0 g1,
    compute F [2; 2; 4; 4] = Ok [f] /\ compute G0 [2; 2; 4; 4] = Ok [g0] /\
    compute G1 [2; 2; 4; 4] = Ok [g1] /\
    4 <= f <= 380 /\ 1 <= g0 <= 625 /\ 4 <= g1 <= 100.
Proof.
  apply (values_within_argument_bounds (fun _ => 0) hs71 [2; 2; 4; 4]).
  - reflexivity.
  - unfold in_bounds. cbn. check_bounds.
Defined.

(** X12: on every vector that respects the argument bounds set by [main],
    every entry of the gradients that [F], [G0] and [G1] return is at
    least 1: within the bounds each of the three functions increases with
    each of its variables. *)
Theorem gradients_positive_within_argument_bounds (u : nat -> R)
  (p : Problem) (x : Eigen.vector_t)
  (Hp : main_problem u = Ok p) (Hx : in_bounds p x) :
  exists gf g0 g1,
    gradient F x 0 = Ok gf /\ gradient G0 x 0 = Ok g0 /\
    gradient G1 x 0 = Ok g1 /\
    Forall (fun d => 1 <= d) gf /\ Forall (fun d => 1 <= d) g0 /\
    Forall (fun d => 1 <= d) g1.
Proof.
  rewrite main_problem_hs71 in Hp. injection Hp as <-.
  apply in_bounds_hs71 in Hx
    as (x0 & x1 & x2 & x3 & -> & H0 & H1 & H2 & H3).
  do 3 eexists. repeat (split; [ reflexivity | ]). cbn.
  assert (1 <= x0 * x3) by nra.
  assert (1 <= x0 * x1) by nra.
  assert (1 <= x0 * x2) by nra.
  assert (1 <= x1 * x2) by nra.
  assert (3 <= x0 + x1 + x2) by lra.
  repeat split; repeat (constructor; [ nra | ]); constructor.
Qed.

Lemma gradients_positive_within_argument_bounds_witness :
  exists gf g0 g1,
    gradient F [2; 2; 4; 4] 0 = Ok gf /\ gradient G0 [2; 2; 4; 4] 0 = Ok g0 /\
    gradient G1 [2; 2; 4; 4] 0 = Ok g1 /\
    Forall (fun d => 1 <= d) gf /\ Forall (fun d => 1 <= d) g0 /\
    Forall (fun d => 1 <= d) g1.
Proof.
  apply (gradients_positive_within_argument_bounds
           (fun _ => 0) hs71 [2; 2; 4; 4]).
  - reflexivity.
  - unfold in_bounds. cbn. check_bounds.
Defined.

(** ** What the assembly never undoes *)

Lemma step_grows u l s l' s' :
  step u l s = Ok (l', s') ->
  function (pb s') = function (pb s) /\
  constraints (pb s) `prefix_of` constraints (pb s').
Proof.
  intros H.
  destruct l; unfold step in H; invert_step H; cbn; try (split; reflexivity).
  - unfold setArgumentBounds in E. destruct (_ <? _)%nat; [ | discriminate E ].
    injection E as <-. split; reflexivity.
  - unfold setStartingPoint in E. destruct (_ =? _)%nat; [ | discriminate E ].
    injection E as <-. split; reflexivity.
  - unfold addConstraint in E. destruct (_ && _); [ | discriminate E ].
    injection E as <- _. split; [ reflexivity | apply prefix_app_r; reflexivity ].
  - unfold addConstraint in E. destruct (_ && _); [ | discriminate E ].
    injection E as <- _. split; [ reflexivity | apply prefix_app_r; reflexivity ].
Qed.

(** X13: from any state and over any number of steps of the assembly,
    the objective of the problem stays the same and the sequence of
    constraints only grows at its end: a constraint, once added, is never
    removed, replaced or moved, also when [main] clears and refills the
    [bounds] and [scales] it was added with. *)
Theorem assembly_only_appends (u : nat -> R) (n : nat) (l l' : label)
  (s s' : locals) (H : run u n l s = Ok (l', s')) :
  function (pb s') = function (pb s) /\
  constraints (pb s) `prefix_of` constraints (pb s').
Proof.
  revert l s H. induction n as [| n IH]; intros l s H; cbn in H.
  - injection H as _ <-. split; reflexivity.
  - destruct (step u l s) as [[l1 s1] | e] eqn:E; cbn in H; [ | discriminate ].
    destruct (step_grows u l s l1 s1 E) as [Hf Hc].
    destruct (IH l1 s1 H) as [Hf' Hc'].
    split; [ congruence | etrans; eassumption ].
Qed.

Lemma assembly_only_appends_witness :
  constraints
    (pb {| pb := {| function := F;
                    startingPoint := Some [1; 5; 5; 1];
                    constraints :=
                      [ {| c_function := G0;
                           c_bounds := [(Finite 25, PosInf)];
                           c_scales := [1] |} ];
                    argumentBounds := replicate 4 (Finite 1, Finite 5) |};
           start := [1; 5; 5; 1];
           bounds := [(Finite 25, PosInf)];
           scales := [1] |})
    `prefix_of` constraints (pb at_dispatch).
Proof.
  apply (assembly_only_appends (fun _ => 0) 5 L143 L160). reflexivity.
Defined.
